(** * raincatcher-workflow: the workflow mediator service

    A shallow embedding of [WorkflowMediatorService] (the client of the
    workflow module) and the proofs of its status derivation
    ([stepReview], [checkStatus]) and of its two composite bus operations
    ([getResultByWorkorderId], [getWorkorderSummary]).

    The source holds two revisions of the service, which differ in
    [updateResult] and [readUserProfile] only; the functions embedded here
    are the same in both.

    The service is JavaScript: what it receives is dynamically typed, and
    several of its branches test for absence or truthiness.  The embedding
    therefore starts with a small universe of JavaScript values, with the
    property read, the truthiness test and the strict comparison the
    source uses. *)

From Stdlib Require Import ZArith Lia Ascii.
From stdpp Require Import gmap strings list.

#[local] Set Warnings "-register-all".
#[local] Open Scope Z_scope.

(** ** JavaScript values *)

(** Numbers are the integer-valued ones (lengths, indices, the literal
    [0]); strings are sequences of code units; a plain object is the
    finite map of its own properties. *)
Inductive value : Type :=
| VUndefined
| VNull
| VBool (b : bool)
| VNum (n : Z)
| VStr (s : string)
| VObj (props : gmap string value)
| VArr (elems : list value).

(** What a thrown exception, or the reason of a rejected promise, can be:
    the [TypeError] of the language, or a value a collaborator failed
    with. *)
Inductive error : Type :=
| TypeError
| Reason (v : value).

(** The outcome of evaluating synchronous code. *)
Inductive completion (A : Type) : Type :=
| Normal (a : A)
| Throw (e : error).
Arguments Normal {A} a.
Arguments Throw {A} e.

#[global] Instance completion_ret : MRet completion := fun A a => Normal a.
#[global] Instance completion_bind : MBind completion := fun A B f c =>
  match c with
  | Normal a => f a
  | Throw e => Throw e
  end.

(** [ToBoolean]. *)
Definition truthy (v : value) : bool :=
  match v with
  | VUndefined | VNull => false
  | VBool b => b
  | VNum n => negb (n =? 0)
  | VStr s => negb (String.eqb s "")
  | VObj _ | VArr _ => true
  end.

(** [v === w] where one side is a primitive.  Objects and arrays are equal
    only to themselves (by reference), which values do not record; every
    comparison of the service has a primitive on its right. *)
Definition strict_eq (v w : value) : bool :=
  match v, w with
  | VUndefined, VUndefined => true
  | VNull, VNull => true
  | VBool a, VBool b => Bool.eqb a b
  | VNum a, VNum b => a =? b
  | VStr a, VStr b => String.eqb a b
  | _, _ => false
  end.

(** [a && b] and [a || b]: the left operand decides whether the right one
    is evaluated, and the result is an operand, not a boolean. *)
Definition js_and (a : value) (b : completion value) : completion value :=
  if truthy a then b else Normal a.

Definition js_or (a : value) (b : completion value) : completion value :=
  if truthy a then Normal a else b.

(** Array indices are the canonical decimal strings: ["0"], or a non-zero
    digit followed by digits. *)
Definition digit (a : ascii) : option nat :=
  let n := nat_of_ascii a in
  if bool_decide (48 <= n <= 57)%nat then Some (n - 48)%nat else None.

Fixpoint digits (s : string) (acc : nat) : option nat :=
  match s with
  | EmptyString => Some acc
  | String a s' =>
      match digit a with
      | Some d => digits s' (10 * acc + d)%nat
      | None => None
      end
  end.

Definition array_index (k : string) : option nat :=
  match k with
  | EmptyString => None
  | String "0" EmptyString => Some 0%nat
  | String "0" _ => None
  | _ => digits k 0
  end.

Fixpoint code_units (s : string) : list value :=
  match s with
  | EmptyString => []
  | String a s' => VStr (String a EmptyString) :: code_units s'
  end.

(** The property read [v[k]] ([v.k]).  Reading from [null] or [undefined]
    throws; an object answers with its own property, an array and a string
    with their length and their elements, and anything else with
    [undefined].  (Members inherited from the built-in prototypes, such as
    [constructor], are functions; the service only ever tests what it reads
    for truthiness and reads [status] from it, which a function does not
    have, so that reading them as [undefined] changes none of its
    results.) *)
Definition get (v : value) (k : string) : completion value :=
  match v with
  | VUndefined | VNull => Throw TypeError
  | VBool _ | VNum _ => Normal VUndefined
  | VStr s =>
      if String.eqb k "length" then Normal (VNum (Z.of_nat (String.length s)))
      else match array_index k with
           | Some i => Normal (default VUndefined (code_units s !! i))
           | None => Normal VUndefined
           end
  | VObj props => Normal (default VUndefined (props !! k))
  | VArr elems =>
      if String.eqb k "length" then Normal (VNum (Z.of_nat (length elems)))
      else match array_index k with
           | Some i => Normal (default VUndefined (elems !! i))
           | None => Normal VUndefined
           end
  end.

(** ** lodash *)

(** [_.findIndex(array, predicate)]: the index of the first element the
    predicate holds of, [-1] when there is none. *)
Fixpoint findIndex_from {A} (predicate : A → completion bool) (array : list A)
    (index : Z) : completion Z :=
  match array with
  | [] => Normal (-1)
  | x :: rest =>
      b ← predicate x;
      if b : bool then Normal index else findIndex_from predicate rest (index + 1)
  end.

Definition findIndex {A} (array : list A) (predicate : A → completion bool)
    : completion Z :=
  findIndex_from predicate array 0.

(** [_.find(array, predicate)]: the first element the predicate holds of,
    [undefined] when there is none. *)
Fixpoint find_in (predicate : value → completion bool) (array : list value)
    : completion value :=
  match array with
  | [] => Normal VUndefined
  | x :: rest =>
      b ← predicate x;
      if b : bool then Normal x else find_in predicate rest
  end.

(** ** The data model of the status derivation *)

Record Step := { code : string }.

Record Workflow := { steps : list Step }.

Record Workorder := { assignee : value }.

Record StepReview := { nextStepIndex : Z; complete : bool }.

(** [CONSTANTS.STATUS.*_DISPLAY], the four statuses a workorder is shown
    with. *)
Inductive Status := NEW_DISPLAY | UNASSIGNED_DISPLAY | PENDING_DISPLAY | COMPLETE_DISPLAY.

Section StatusEngine.

(** [CONSTANTS.STATUS.COMPLETE], the status a finished step is recorded
    with.  The module of constants is not among the sources: the value is a
    parameter of the development. *)
Variable COMPLETE : string.

(** The predicate [stepReview] hands to [_.findIndex]:
    [!result.stepResults[step.code] ||
     result.stepResults[step.code].status !== CONSTANTS.STATUS.COMPLETE]. *)
Definition incomplete (stepResults : value) (step : Step) : completion bool :=
  entry ← get stepResults (code step);
  if negb (truthy entry) then Normal true
  else
    status ← get entry "status";
    Normal (negb (strict_eq status (VStr COMPLETE))).

Definition stepReview (steps : list Step) (result : value) : completion StepReview :=
  recorded ← js_and result (get result "stepResults");
  reviewed ←
    js_and recorded
      (stepResults ← get result "stepResults";
       len ← get stepResults "length";
       Normal (VBool (negb (strict_eq len (VNum 0)))));
  if truthy reviewed then
    stepResults ← get result "stepResults";
    nextIncompleteStepIndex ← findIndex steps (incomplete stepResults);
    if nextIncompleteStepIndex =? -1 then
      Normal {| nextStepIndex := Z.of_nat (length steps); complete := true |}
    else
      Normal {| nextStepIndex := nextIncompleteStepIndex; complete := false |}
  else
    Normal {| nextStepIndex := 0; complete := false |}.

Definition checkStatus (workorder : Workorder) (workflow : Workflow) (result : value)
    : completion Status :=
  review ← stepReview (steps workflow) result;
  if (nextStepIndex review >=? Z.of_nat (length (steps workflow)) - 1) && complete review then
    Normal COMPLETE_DISPLAY
  else if negb (truthy (assignee workorder)) then
    Normal UNASSIGNED_DISPLAY
  else if nextStepIndex review <? 0 then
    Normal NEW_DISPLAY
  else
    Normal PENDING_DISPLAY.

End StatusEngine.

(** ** The bus *)

(** A promise, once settled.  The service never looks at a pending
    promise: it only chains callbacks, which run after settlement. *)
Inductive promise (A : Type) : Type :=
| Resolved (a : A)
| Rejected (e : error).
Arguments Resolved {A} a.
Arguments Rejected {A} e.

(** What a [then] callback returns or throws settles the chained promise. *)
Definition settle {A} (c : completion A) : promise A :=
  match c with
  | Normal a => Resolved a
  | Throw e => Rejected e
  end.

(** The four topic utilities the constructor builds, and
    [CONSTANTS.TOPICS.*]. *)
Inductive TopicUtility := resultsTopics | workordersTopics | usersTopics | workflowSyncSubscribers.

Inductive Topic := LIST | CREATE | READ | UPDATE | REMOVE | READ_PROFILE.

(** One call of [execute(topic, this.config, payload)] on a topic utility;
    [payload] is [undefined] where the call passes none.  The
    configuration is fixed at construction and left out. *)
Record request := { topics : TopicUtility; topic : Topic; payload : value }.

(** A method of the service: it makes requests on the bus, which are
    logged in the order they are made, and returns. *)
Definition bus_op (A : Type) : Type := list request → A * list request.

#[global] Instance bus_op_ret : MRet bus_op := fun A a log => (a, log).
#[global] Instance bus_op_bind : MBind bus_op := fun A B f m log =>
  let (a, log') := m log in f a log'.

(** [promise.then(onFulfilled)]: the callback runs on a resolved promise
    only; a rejection passes through. *)
Definition then_ {A B} (p : promise A) (onFulfilled : A → bus_op (promise B))
    : bus_op (promise B) :=
  match p with
  | Resolved a => onFulfilled a
  | Rejected e => mret (Rejected e)
  end.

(** [_.find(collection, predicate)] on the collection it is given: the
    elements of an array, the code units of a string, the values of an
    object (enumerated here by key; the order of insertion is not
    recorded), and nothing for another primitive. *)
Definition find (collection : value) (predicate : value → completion bool)
    : completion value :=
  match collection with
  | VArr elems => find_in predicate elems
  | VStr s => find_in predicate (code_units s)
  | VObj props => find_in predicate (map_to_list props).*2
  | _ => Normal VUndefined
  end.

Section Facade.

(** [MediatorTopicUtility.execute] belongs to the mediator module, outside
    this repository: the settled promise it answers a request with, given
    the requests made before. *)
Variable mediator : list request → request → promise value.

(** Of the two fetches [getWorkorderSummary] joins, whether the workflow's
    is the earlier to reject when both do. *)
Variable workflow_rejects_first : bool.

Definition execute (topics : TopicUtility) (topic : Topic) (payload : value)
    : bus_op (promise value) :=
  fun log =>
    let req := {| topics := topics; topic := topic; payload := payload |} in
    (mediator log req, log ++ [req]).

Definition listResults : bus_op (promise value) :=
  execute resultsTopics LIST VUndefined.

Definition readWorkorder (workorderId : string) : bus_op (promise value) :=
  let payload := VObj {[ "id" := VStr workorderId; "topicUid" := VStr workorderId ]} in
  execute workordersTopics READ payload.

Definition read (workflowId : value) : bus_op (promise value) :=
  let payload := VObj {[ "id" := workflowId; "topicUid" := workflowId ]} in
  execute workflowSyncSubscribers READ payload.

(** [q.all([p1, p2])]: the array of both values, or the reason of the
    first promise to reject. *)
Definition q_all (p1 p2 : promise value) : promise value :=
  match p1, p2 with
  | Resolved a1, Resolved a2 => Resolved (VArr [a1; a2])
  | Rejected e, Resolved _ => Rejected e
  | Resolved _, Rejected e => Rejected e
  | Rejected e1, Rejected e2 => Rejected (if workflow_rejects_first then e1 else e2)
  end.

Definition getResultByWorkorderId (workorderId : string) : bus_op (promise value) :=
  listed ← listResults;
  then_ listed (fun resultsArray =>
    mret (settle (
      collection ← js_or resultsArray (Normal (VArr []));
      found ← find collection (fun result =>
        id ← get result "workorderId";
        Normal (strict_eq id (VStr workorderId)));
      js_or found (Normal VNull)))).

Definition getWorkorderSummary (workorderId : string) : bus_op (promise value) :=
  fetched ← readWorkorder workorderId;
  then_ fetched (fun workorder =>
    match get workorder "workflowId" with
    | Throw e => mret (Rejected e)
    | Normal workflowId =>
        workflowPromise ← read workflowId;
        resultPromise ← getResultByWorkorderId workorderId;
        then_ (q_all workflowPromise resultPromise) (fun workorderResult =>
          mret (settle (
            workflow ← get workorderResult "0";
            result ← get workorderResult "1";
            Normal (VArr [workorder; workflow; result]))))
    end).

End Facade.

(** ** Spec-side vocabulary *)

Definition absent (v : value) : Prop := v = VUndefined ∨ v = VNull.

Definition is_object (v : value) : Prop := ∃ props, v = VObj props.

(** A result that records its step results in the mapping [entries]. *)
Definition records (result : value) (entries : gmap string value) : Prop :=
  ∃ props, result = VObj props ∧ props !! "stepResults" = Some (VObj entries).

(** The step has an entry whose status is the [COMPLETE] value. *)
Definition has_complete_entry (COMPLETE : string) (entries : gmap string value)
    (step : Step) : Prop :=
  ∃ entry, entries !! code step = Some entry
           ∧ get entry "status" = Normal (VStr COMPLETE).

(** The step has no entry, or one whose status is not the [COMPLETE]
    value. *)
Definition lacks_complete_entry (COMPLETE : string) (entries : gmap string value)
    (step : Step) : Prop :=
  entries !! code step = None
  ∨ ∃ entry, entries !! code step = Some entry
             ∧ get entry "status" ≠ Normal (VStr COMPLETE).

(** The condition under which [checkStatus] answers [COMPLETE_DISPLAY]. *)
Definition complete_condition (workflow : Workflow) (review : StepReview) : Prop :=
  nextStepIndex review >= Z.of_nat (length (steps workflow)) - 1
  ∧ complete review = true.

(** The review [stepReview] builds from what [_.findIndex] returned. *)
Definition review_of (steps : list Step) (index : Z) : StepReview :=
  if index =? -1 then {| nextStepIndex := Z.of_nat (length steps); complete := true |}
  else {| nextStepIndex := index; complete := false |}.

Definition not_started : StepReview := {| nextStepIndex := 0; complete := false |}.

(** The requests the composite operations make. *)
Definition listResultsRequest : request :=
  {| topics := resultsTopics; topic := LIST; payload := VUndefined |}.

Definition readWorkorderRequest (workorderId : string) : request :=
  {| topics := workordersTopics; topic := READ;
     payload := VObj {[ "id" := VStr workorderId; "topicUid" := VStr workorderId ]} |}.

Definition readWorkflowRequest (workflowId : value) : request :=
  {| topics := workflowSyncSubscribers; topic := READ;
     payload := VObj {[ "id" := workflowId; "topicUid" := workflowId ]} |}.

(** The [workorderId] field of the result is the given identifier. *)
Definition for_workorder (workorderId : string) (result : value) : Prop :=
  get result "workorderId" = Normal (VStr workorderId).

(** What [getResultByWorkorderId] computes from the resolved list, in its
    [then] callback. *)
Definition matching_result (workorderId : string) (resultsArray : value)
    : completion value :=
  collection ← js_or resultsArray (Normal (VArr []));
  found ← find collection (fun result =>
    id ← get result "workorderId";
    Normal (strict_eq id (VStr workorderId)));
  js_or found (Normal VNull).

(** ** Sample data

    A workflow of two steps, results at three stages of progress, and a
    bus that knows one workorder, its workflow and three results, two of
    them for that workorder. *)
Module Sample.

Definition COMPLETE : string := "complete".

Definition step_a : Step := {| code := "a" |}.
Definition step_b : Step := {| code := "b" |}.
Definition workflow : Workflow := {| steps := [step_a; step_b] |}.

Definition completed : value := VObj {[ "status" := VStr COMPLETE ]}.
Definition pending : value := VObj {[ "status" := VStr "pending" ]}.

Definition entries_a : gmap string value := {[ "a" := completed ]}.
Definition entries_ab : gmap string value := {[ "a" := completed; "b" := completed ]}.

Definition result_with (id : string) (entries : gmap string value) : value :=
  VObj {[ "id" := VStr id; "workorderId" := VStr "wo1"; "stepResults" := VObj entries ]}.

Definition result_a : value := result_with "r1" entries_a.
Definition result_ab : value := result_with "r2" entries_ab.
Definition result_other : value :=
  VObj {[ "id" := VStr "r0"; "workorderId" := VStr "wo7"; "stepResults" := VObj ∅ ]}.

Definition unassigned : Workorder := {| assignee := VUndefined |}.
Definition assigned : Workorder := {| assignee := VStr "trever" |}.

Definition workorder : value :=
  VObj {[ "id" := VStr "wo1"; "workflowId" := VStr "wf1" ]}.
Definition workflow_record : value :=
  VObj {[ "id" := VStr "wf1"; "title" := VStr "inspection" ]}.

Definition results : list value := [result_other; result_a; result_ab].

(** A bus that answers every request. *)
Definition mediator (log : list request) (req : request) : promise value :=
  match topics req, topic req with
  | workordersTopics, READ => Resolved workorder
  | workflowSyncSubscribers, READ => Resolved workflow_record
  | resultsTopics, LIST => Resolved (VArr results)
  | _, _ => Rejected (Reason (VStr "no subscriber"))
  end.

(** A bus whose list of results is [null]. *)
Definition mediator_no_list (log : list request) (req : request) : promise value :=
  match topics req, topic req with
  | resultsTopics, LIST => Resolved VNull
  | _, _ => mediator log req
  end.

(** A bus that fails every request. *)
Definition mediator_down (log : list request) (req : request) : promise value :=
  Rejected (Reason (VStr "bus down")).

End Sample.

(** Buses that fail in one place each. *)
Module Faulty.

(** The list of results holds a [null] before the result looked for. *)
Definition mediator_null_element (log : list request) (req : request) : promise value :=
  match topics req, topic req with
  | resultsTopics, LIST =>
      Resolved (VArr [Sample.result_other; VNull; Sample.result_a])
  | _, _ => Sample.mediator log req
  end.

(** The workflow cannot be read. *)
Definition mediator_no_workflow (log : list request) (req : request) : promise value :=
  match topics req, topic req with
  | workflowSyncSubscribers, READ => Rejected (Reason (VStr "no such workflow"))
  | _, _ => Sample.mediator log req
  end.

(** The workorder is answered with [null]. *)
Definition mediator_null_workorder (log : list request) (req : request) : promise value :=
  match topics req, topic req with
  | workordersTopics, READ => Resolved VNull
  | _, _ => Sample.mediator log req
  end.

End Faulty.

(** ** Creating results, and the subscriber for listing workflows *)

Section Operations.

Variable mediator : list request → request → promise value.

(** [shortid.generate()], of the shortid module: the identifier it hands
    out, given the requests made so far. *)
Variable generate : list request → string.

(** The values of [CONSTANTS.STATUS.*_DISPLAY]. *)
Variable display : Status → value.

Definition createResult (resultToCreate : value) : bus_op (promise value) :=
  fun log =>
    let payload :=
      VObj {[ "resultToCreate" := resultToCreate; "topicUid" := VStr (generate log) ]} in
    execute mediator resultsTopics CREATE payload log.

(** The object literal [createNewResult] passes on. *)
Definition newResult (workorderId : string) : value :=
  VObj {[ "status" := display NEW_DISPLAY;
          "nextStepIndex" := VNum 0;
          "workorderId" := VStr workorderId;
          "stepResults" := VObj ∅ ]}.

Definition createNewResult (workorderId : string) : bus_op (promise value) :=
  createResult (newResult workorderId).

End Operations.




(** ** More spec-side vocabulary *)

(** The result records, for the step, an entry whose status is the
    [COMPLETE] value. *)
Definition step_done (COMPLETE : string) (result : value) (step : Step) : Prop :=
  ∃ stepResults entry,
    get result "stepResults" = Normal stepResults
    ∧ get stepResults (code step) = Normal entry
    ∧ truthy entry = true
    ∧ get entry "status" = Normal (VStr COMPLETE).

(** A request that reads: it lists or fetches, and changes nothing. *)
Definition reads (req : request) : Prop := topic req = LIST ∨ topic req = READ.

(** ** Values *)

Lemma get_truthy v k : truthy v = true → ∃ w, get v k = Normal w.
Proof.
  destruct v; simpl; try discriminate; intros _; eauto;
    destruct (String.eqb k "length"); eauto; destruct (array_index k); eauto.
Qed.

Lemma strict_eq_str v s : strict_eq v (VStr s) = true ↔ v = VStr s.
Proof.
  destruct v; simpl; try (split; [discriminate | intros [=]]).
  rewrite String.eqb_eq. split; [intros -> | intros [= ->]]; reflexivity.
Qed.

(** ** [_.findIndex] *)

Section FindIndex.
Context {A : Type} (predicate : A → completion bool).

Lemma findIndex_from_none array index :
  Forall (fun x => predicate x = Normal false) array →
  findIndex_from predicate array index = Normal (-1).
Proof.
  intros Hall. revert index.
  induction Hall as [| x rest Hx _ IH]; intros index; simpl; [reflexivity |].
  rewrite Hx. simpl. apply IH.
Qed.

Lemma findIndex_from_first before x after index :
  Forall (fun y => predicate y = Normal false) before →
  predicate x = Normal true →
  findIndex_from predicate (before ++ x :: after) index
  = Normal (index + Z.of_nat (length before)).
Proof.
  intros Hbefore Hx. revert index.
  induction Hbefore as [| y rest Hy _ IH]; intros index; simpl.
  - rewrite Hx. simpl. f_equal. lia.
  - rewrite Hy. simpl. rewrite IH. f_equal. lia.
Qed.

Lemma findIndex_from_range array index :
  (∀ x, ∃ b, predicate x = Normal b) →
  ∃ n, findIndex_from predicate array index = Normal n
       ∧ (n = -1 ∨ index ≤ n < index + Z.of_nat (length array)).
Proof.
  intros Htotal. revert index.
  induction array as [| x rest IH]; intros index; simpl.
  - eexists; split; [reflexivity | left; reflexivity].
  - destruct (Htotal x) as [[] ->]; simpl.
    + eexists; split; [reflexivity | right; lia].
    + destruct (IH (index + 1)) as (n & -> & Hn).
      eexists; split; [reflexivity | destruct Hn; [left | right]; lia].
Qed.

End FindIndex.

(** ** [stepReview] *)

Section StatusEngineFacts.
Variable COMPLETE : string.

Lemma incomplete_total stepResults step :
  truthy stepResults = true → ∃ b, incomplete COMPLETE stepResults step = Normal b.
Proof.
  intros Ht. unfold incomplete.
  destruct (get_truthy stepResults (code step) Ht) as [entry ->]. simpl.
  destruct (truthy entry) eqn:He; simpl; [| eauto].
  destruct (get_truthy entry "status" He) as [status ->]. simpl. eauto.
Qed.

(** The two ways [stepReview] goes: it answers "not started" without
    looking at the steps, or it scans them against step results that are
    truthy. *)
Lemma stepReview_cases steps result :
  stepReview COMPLETE steps result = Normal not_started
  ∨ ∃ stepResults,
      truthy result = true
      ∧ get result "stepResults" = Normal stepResults
      ∧ truthy stepResults = true
      ∧ stepReview COMPLETE steps result
        = (index ← findIndex steps (incomplete COMPLETE stepResults);
           Normal (review_of steps index)).
Proof.
  unfold stepReview, js_and.
  destruct (truthy result) eqn:Hr; [| simpl; rewrite Hr; simpl; rewrite Hr; left; reflexivity].
  destruct (get_truthy result "stepResults" Hr) as [stepResults Hget].
  rewrite Hget. simpl.
  destruct (truthy stepResults) eqn:Hs; [| simpl; rewrite Hs; left; reflexivity].
  destruct (get_truthy stepResults "length" Hs) as [len ->]. simpl.
  destruct (strict_eq len (VNum 0)); simpl; [left; reflexivity |].
  right. exists stepResults. repeat split; try assumption.
  destruct (findIndex steps (incomplete COMPLETE stepResults)) as [index |]; simpl;
    [| reflexivity].
  unfold review_of. destruct (index =? -1); reflexivity.
Qed.

(** A result that records its step results in a mapping of objects is
    scanned, however many entries the mapping has. *)
Lemma stepReview_records steps result entries :
  records result entries →
  map_Forall (fun _ entry => is_object entry) entries →
  stepReview COMPLETE steps result
  = (index ← findIndex steps (incomplete COMPLETE (VObj entries));
     Normal (review_of steps index)).
Proof.
  intros (props & -> & Hprops) Hentries.
  unfold stepReview, js_and. simpl. rewrite Hprops. simpl.
  assert (strict_eq (default VUndefined (entries !! "length")) (VNum 0) = false) as ->.
  { destruct (entries !! "length") as [len |] eqn:Hlen; [| reflexivity].
    destruct (Hentries _ _ Hlen) as [? ->]. reflexivity. }
  simpl.
  destruct (findIndex steps (incomplete COMPLETE (VObj entries))) as [index |]; simpl;
    [| reflexivity].
  unfold review_of. destruct (index =? -1); reflexivity.
Qed.

Lemma incomplete_lacks entries step :
  map_Forall (fun _ entry => is_object entry) entries →
  lacks_complete_entry COMPLETE entries step →
  incomplete COMPLETE (VObj entries) step = Normal true.
Proof.
  intros Hentries [Hnone | (entry & Hsome & Hstatus)]; unfold incomplete; simpl.
  - rewrite Hnone. reflexivity.
  - rewrite Hsome. simpl.
    destruct (Hentries _ _ Hsome) as [props ->]. simpl.
    destruct (strict_eq _ _) eqn:Heq; [| reflexivity].
    apply strict_eq_str in Heq. exfalso. apply Hstatus. simpl. f_equal. exact Heq.
Qed.

Lemma incomplete_has entries step :
  has_complete_entry COMPLETE entries step →
  incomplete COMPLETE (VObj entries) step = Normal false.
Proof.
  intros (entry & Hsome & Hstatus). unfold incomplete. simpl. rewrite Hsome. simpl.
  destruct entry; try discriminate Hstatus.
  simpl in *. injection Hstatus as ->. simpl. rewrite String.eqb_refl. reflexivity.
Qed.

(** Parts of the "not started" answer that hold whatever the steps are. *)
Lemma stepReview_absent_result steps result :
  absent result → stepReview COMPLETE steps result = Normal not_started.
Proof. intros [-> | ->]; reflexivity. Qed.

Lemma stepReview_absent_stepResults steps props :
  (props !! "stepResults" = None ∨ ∃ v, props !! "stepResults" = Some v ∧ absent v) →
  stepReview COMPLETE steps (VObj props) = Normal not_started.
Proof.
  intros [Hnone | (v & Hsome & [-> | ->])]; unfold stepReview, js_and; simpl;
    rewrite ?Hnone, ?Hsome; reflexivity.
Qed.

Lemma stepReview_empty_array steps props :
  props !! "stepResults" = Some (VArr []) →
  stepReview COMPLETE steps (VObj props) = Normal not_started.
Proof. intros Hsome. unfold stepReview, js_and. simpl. rewrite Hsome. reflexivity. Qed.

Lemma stepReview_empty_mapping_some_steps step steps result :
  records result ∅ →
  stepReview COMPLETE (step :: steps) result = Normal not_started.
Proof.
  intros Hrec. rewrite (stepReview_records _ _ ∅ Hrec); [| apply map_Forall_empty].
  reflexivity.
Qed.

(** C1. With no steps and a result whose [stepResults] is the empty
    mapping, [stepReview] answers [{ nextStepIndex: 0, complete: true }]:
    a plain object has no [length], so that [length !== 0] holds of it and
    the scan of no steps finds nothing incomplete. *)
Theorem stepReview_empty_mapping_no_steps :
  stepReview COMPLETE [] (VObj {[ "stepResults" := VObj ∅ ]})
  = Normal {| nextStepIndex := 0; complete := true |}.
Proof. reflexivity. Qed.

(** C2. For a result that records at least one step result, [stepReview]
    answers with the position of the first step that has no entry or an
    entry whose status is not [COMPLETE], and [complete = false]; when
    every step has a [COMPLETE] entry it answers [complete = true] and
    [nextStepIndex = steps.length] (which is [0] for no steps). *)
Theorem stepReview_scan steps result entries :
  records result entries →
  entries ≠ ∅ →
  map_Forall (fun _ entry => is_object entry) entries →
  (∀ i step,
      steps !! i = Some step →
      lacks_complete_entry COMPLETE entries step →
      (∀ j earlier, (j < i)%nat → steps !! j = Some earlier →
                    has_complete_entry COMPLETE entries earlier) →
      stepReview COMPLETE steps result
      = Normal {| nextStepIndex := Z.of_nat i; complete := false |})
  ∧ ((∀ step, step ∈ steps → has_complete_entry COMPLETE entries step) →
     stepReview COMPLETE steps result
     = Normal {| nextStepIndex := Z.of_nat (length steps); complete := true |}).
Proof.
  intros Hrec _ Hentries. rewrite (stepReview_records _ _ _ Hrec Hentries). split.
  - intros i step Hi Hlacks Hearlier.
    apply list_elem_of_split_length in Hi as (before & after & -> & ->).
    unfold findIndex. rewrite findIndex_from_first.
    + rewrite Z.add_0_l. simpl. unfold review_of.
      destruct (Z.eqb_spec (Z.of_nat (length before)) (-1)); [lia | reflexivity].
    + apply Forall_lookup. intros j earlier Hj. apply incomplete_has.
      apply (Hearlier j).
      * apply lookup_lt_Some in Hj. exact Hj.
      * rewrite lookup_app_l; [exact Hj | apply lookup_lt_Some in Hj; exact Hj].
    + apply incomplete_lacks; assumption.
  - intros Hall. unfold findIndex. rewrite findIndex_from_none; [reflexivity |].
    apply Forall_forall. intros step Hin. apply incomplete_has, Hall, Hin.
Qed.

(** [stepReview] never throws, and its index is within the steps or just
    past them. *)
Lemma stepReview_returns steps result :
  ∃ review,
    stepReview COMPLETE steps result = Normal review
    ∧ 0 ≤ nextStepIndex review ≤ Z.of_nat (length steps)
    ∧ (complete review = true → nextStepIndex review = Z.of_nat (length steps)).
Proof.
  destruct (stepReview_cases steps result)
    as [-> | (stepResults & _ & _ & Hs & ->)].
  - exists not_started. simpl. repeat split; [lia | lia | discriminate].
  - destruct (findIndex_from_range (incomplete COMPLETE stepResults) steps 0
                (fun step => incomplete_total stepResults step Hs))
      as (index & Hindex & Hrange).
    unfold findIndex. rewrite Hindex. simpl. eexists. split; [reflexivity |].
    unfold review_of. destruct (Z.eqb_spec index (-1)); simpl.
    + repeat split; lia.
    + repeat split; [lia | lia | discriminate].
Qed.

(** C4. [stepReview] returns, and the [nextStepIndex] it returns lies
    between [0] and [steps.length]; it is [steps.length] whenever
    [complete] is true. *)
Theorem stepReview_index_range steps result :
  ∃ review,
    stepReview COMPLETE steps result = Normal review
    ∧ 0 ≤ nextStepIndex review ≤ Z.of_nat (length steps)
    ∧ (complete review = true → nextStepIndex review = Z.of_nat (length steps)).
Proof. apply stepReview_returns. Qed.

(** ** [checkStatus] *)

(** C3. Whenever [stepReview] yields [complete = true] and a
    [nextStepIndex] of at least [steps.length - 1], [checkStatus] answers
    [COMPLETE_DISPLAY], whatever the assignee of the workorder. *)
Theorem checkStatus_complete workorder workflow result review :
  stepReview COMPLETE (steps workflow) result = Normal review →
  complete review = true →
  nextStepIndex review >= Z.of_nat (length (steps workflow)) - 1 →
  checkStatus COMPLETE workorder workflow result = Normal COMPLETE_DISPLAY.
Proof.
  intros Hreview Hcomplete Hindex. unfold checkStatus. rewrite Hreview. simpl.
  rewrite Hcomplete.
  destruct (Z.geb_spec (nextStepIndex review) (Z.of_nat (length (steps workflow)) - 1));
    [reflexivity | lia].
Qed.

(** C5. The index [stepReview] returns is never negative, so that the
    [nextStepIndex < 0] branch of [checkStatus] is not taken: [checkStatus]
    never answers [NEW_DISPLAY]. *)
Theorem checkStatus_never_new workorder workflow result :
  (∃ review, stepReview COMPLETE (steps workflow) result = Normal review
             ∧ 0 ≤ nextStepIndex review)
  ∧ checkStatus COMPLETE workorder workflow result ≠ Normal NEW_DISPLAY.
Proof.
  destruct (stepReview_returns (steps workflow) result)
    as (review & Hreview & Hrange & _).
  split; [exists review; split; [exact Hreview | lia] |].
  unfold checkStatus. rewrite Hreview. simpl.
  destruct (_ && _); [discriminate |].
  destruct (negb _); [discriminate |].
  destruct (Z.ltb_spec (nextStepIndex review) 0); [lia | discriminate].
Qed.

Lemma checkStatus_total workorder workflow result :
  ∃ status, checkStatus COMPLETE workorder workflow result = Normal status.
Proof.
  destruct (stepReview_returns (steps workflow) result) as (review & Hreview & _).
  unfold checkStatus. rewrite Hreview. simpl.
  destruct (_ && _); [eauto |]. destruct (negb _); [eauto |].
  destruct (_ <? _); eauto.
Qed.

Lemma complete_condition_false workflow review :
  ¬ complete_condition workflow review →
  (nextStepIndex review >=? Z.of_nat (length (steps workflow)) - 1) && complete review
  = false.
Proof.
  intros Hnot. apply not_true_is_false. intros [Hge Hc]%andb_prop.
  apply Hnot. split; [| exact Hc].
  destruct (Z.geb_spec (nextStepIndex review) (Z.of_nat (length (steps workflow)) - 1));
    [lia | discriminate].
Qed.

(** C6. When the assignee of the workorder is falsy and the condition of
    [COMPLETE_DISPLAY] does not hold, [checkStatus] answers
    [UNASSIGNED_DISPLAY]. *)
Theorem checkStatus_unassigned workorder workflow result review :
  truthy (assignee workorder) = false →
  stepReview COMPLETE (steps workflow) result = Normal review →
  ¬ complete_condition workflow review →
  checkStatus COMPLETE workorder workflow result = Normal UNASSIGNED_DISPLAY.
Proof.
  intros Hassignee Hreview Hnot. unfold checkStatus. rewrite Hreview. simpl.
  rewrite (complete_condition_false _ _ Hnot), Hassignee. reflexivity.
Qed.

(** C7. When the assignee of the workorder is truthy, the condition of
    [COMPLETE_DISPLAY] does not hold and the index of the review is not
    negative, [checkStatus] answers [PENDING_DISPLAY]. *)
Theorem checkStatus_pending workorder workflow result review :
  truthy (assignee workorder) = true →
  stepReview COMPLETE (steps workflow) result = Normal review →
  ¬ complete_condition workflow review →
  0 ≤ nextStepIndex review →
  checkStatus COMPLETE workorder workflow result = Normal PENDING_DISPLAY.
Proof.
  intros Hassignee Hreview Hnot Hindex. unfold checkStatus. rewrite Hreview. simpl.
  rewrite (complete_condition_false _ _ Hnot), Hassignee. simpl.
  destruct (Z.ltb_spec (nextStepIndex review) 0); [lia | reflexivity].
Qed.

End StatusEngineFacts.

(** ** [_.find] *)

Section Find.
Variable predicate : value → completion bool.

Lemma find_in_none array :
  Forall (fun x => predicate x = Normal false) array →
  find_in predicate array = Normal VUndefined.
Proof.
  induction 1 as [| x rest Hx _ IH]; simpl; [reflexivity |].
  rewrite Hx. simpl. exact IH.
Qed.

Lemma find_in_first before x after :
  Forall (fun y => predicate y = Normal false) before →
  predicate x = Normal true →
  find_in predicate (before ++ x :: after) = Normal x.
Proof.
  intros Hbefore Hx.
  induction Hbefore as [| y rest Hy _ IH]; simpl.
  - rewrite Hx. reflexivity.
  - rewrite Hy. simpl. exact IH.
Qed.

End Find.

(** ** The composite operations *)

Section FacadeFacts.
Variable mediator : list request → request → promise value.
Variable workflow_rejects_first : bool.

(** [getResultByWorkorderId] makes one request, for the list of results,
    and settles with what its callback computes from the list. *)
Lemma getResultByWorkorderId_unfold workorderId log :
  getResultByWorkorderId mediator workorderId log
  = (match mediator log listResultsRequest with
     | Resolved resultsArray => settle (matching_result workorderId resultsArray)
     | Rejected e => Rejected e
     end, log ++ [listResultsRequest]).
Proof.
  unfold getResultByWorkorderId, listResults, execute, mbind, bus_op_bind.
  fold listResultsRequest.
  destruct (mediator log listResultsRequest); reflexivity.
Qed.

Lemma matches_yes workorderId result :
  for_workorder workorderId result →
  (id ← get result "workorderId"; Normal (strict_eq id (VStr workorderId)))
  = Normal true.
Proof.
  unfold for_workorder. intros ->. simpl. rewrite String.eqb_refl. reflexivity.
Qed.

Lemma matches_no workorderId result :
  is_object result →
  ¬ for_workorder workorderId result →
  (id ← get result "workorderId"; Normal (strict_eq id (VStr workorderId)))
  = Normal false.
Proof.
  intros [props ->] Hnot. unfold for_workorder in Hnot. simpl in *. f_equal.
  apply not_true_is_false. intros Heq%strict_eq_str. apply Hnot. f_equal. exact Heq.
Qed.

(** C8. [getResultByWorkorderId] resolves to the first result of the list
    whose [workorderId] is the given one, and to [null] when no result
    matches; a failure of the list request is the failure it rejects
    with. *)
Theorem getResultByWorkorderId_first_match workorderId log :
  (∀ results,
      mediator log listResultsRequest = Resolved (VArr results) →
      Forall is_object results →
      (∀ i result,
          results !! i = Some result →
          for_workorder workorderId result →
          (∀ j earlier, (j < i)%nat → results !! j = Some earlier →
                        ¬ for_workorder workorderId earlier) →
          getResultByWorkorderId mediator workorderId log
          = (Resolved result, log ++ [listResultsRequest]))
      ∧ ((∀ result, result ∈ results → ¬ for_workorder workorderId result) →
         getResultByWorkorderId mediator workorderId log
         = (Resolved VNull, log ++ [listResultsRequest])))
  ∧ (∀ e,
      mediator log listResultsRequest = Rejected e →
      getResultByWorkorderId mediator workorderId log
      = (Rejected e, log ++ [listResultsRequest])).
Proof.
  split.
  - intros results Hlist Hobjects. rewrite getResultByWorkorderId_unfold, Hlist.
    unfold matching_result, js_or. simpl. split.
    + intros i result Hi Hmatch Hearlier.
      pose proof (proj1 (Forall_lookup _ _) Hobjects i result Hi) as [props ->].
      apply list_elem_of_split_length in Hi as (before & after & -> & ->).
      rewrite find_in_first; [reflexivity | | apply matches_yes, Hmatch].
      apply Forall_lookup. intros j earlier Hj.
      assert ((j < length before)%nat) as Hlt by (apply lookup_lt_Some in Hj; exact Hj).
      assert ((before ++ VObj props :: after) !! j = Some earlier) as Hj'
        by (rewrite lookup_app_l; assumption).
      apply matches_no; [| apply (Hearlier j); assumption].
      apply (proj1 (Forall_lookup _ _) Hobjects j earlier Hj').
    + intros Hnone. rewrite find_in_none; [reflexivity |].
      apply Forall_forall. intros result Hin. apply matches_no; [| apply Hnone, Hin].
      apply (proj1 (Forall_forall _ _) Hobjects result Hin).
  - intros e Hlist. rewrite getResultByWorkorderId_unfold, Hlist. reflexivity.
Qed.

(** C10. When the list request resolves to [null] or [undefined],
    [getResultByWorkorderId] still resolves, to [null]: the scan runs over
    an empty array. *)
Theorem getResultByWorkorderId_no_list workorderId log listed :
  mediator log listResultsRequest = Resolved listed →
  absent listed →
  getResultByWorkorderId mediator workorderId log
  = (Resolved VNull, log ++ [listResultsRequest]).
Proof.
  intros Hlist Habsent. rewrite getResultByWorkorderId_unfold, Hlist.
  destruct Habsent as [-> | ->]; reflexivity.
Qed.

(** C9. [getWorkorderSummary] requests the workorder, then the workflow
    named by [workorder.workflowId], then the list of results; when the
    three succeed it resolves to [[workorder, workflow, result]].  When the
    request for the workorder fails it rejects with that failure and makes
    no other request. *)
Theorem getWorkorderSummary_triple workorderId log :
  (∀ workorder workflowId workflow result,
      mediator log (readWorkorderRequest workorderId) = Resolved workorder →
      get workorder "workflowId" = Normal workflowId →
      mediator (log ++ [readWorkorderRequest workorderId])
        (readWorkflowRequest workflowId) = Resolved workflow →
      fst (getResultByWorkorderId mediator workorderId
             (log ++ [readWorkorderRequest workorderId;
                      readWorkflowRequest workflowId]))
      = Resolved result →
      getWorkorderSummary mediator workflow_rejects_first workorderId log
      = (Resolved (VArr [workorder; workflow; result]),
         log ++ [readWorkorderRequest workorderId;
                 readWorkflowRequest workflowId;
                 listResultsRequest]))
  ∧ (∀ e,
      mediator log (readWorkorderRequest workorderId) = Rejected e →
      getWorkorderSummary mediator workflow_rejects_first workorderId log
      = (Rejected e, log ++ [readWorkorderRequest workorderId])).
Proof.
  split.
  - intros workorder workflowId workflow result Hworkorder Hid Hworkflow Hresult.
    unfold getWorkorderSummary, readWorkorder, read, execute, mbind, bus_op_bind.
    fold (readWorkorderRequest workorderId). rewrite Hworkorder. simpl.
    rewrite Hid. fold (readWorkflowRequest workflowId). rewrite Hworkflow.
    rewrite <- (assoc_L (++)). simpl.
    rewrite getResultByWorkorderId_unfold in Hresult |- *. simpl in Hresult.
    rewrite Hresult. simpl. rewrite <- (assoc_L (++)). reflexivity.
  - intros e Hworkorder.
    unfold getWorkorderSummary, readWorkorder, execute, mbind, bus_op_bind.
    fold (readWorkorderRequest workorderId). rewrite Hworkorder. reflexivity.
Qed.

End FacadeFacts.

(** ** The theorems at the sample data *)

Lemma is_object_VObj props : is_object (VObj props).
Proof. exists props. reflexivity. Defined.

Lemma records_result_with id entries : records (Sample.result_with id entries) entries.
Proof. eexists. split; reflexivity. Defined.

Lemma entries_a_objects :
  map_Forall (fun _ entry => is_object entry) Sample.entries_a.
Proof. apply map_Forall_singleton. apply is_object_VObj. Defined.

Lemma entries_ab_objects :
  map_Forall (fun _ entry => is_object entry) Sample.entries_ab.
Proof.
  apply map_Forall_insert_2; [apply is_object_VObj |].
  apply map_Forall_singleton. apply is_object_VObj.
Defined.

Lemma review_a :
  stepReview Sample.COMPLETE (steps Sample.workflow) Sample.result_a
  = Normal {| nextStepIndex := 1; complete := false |}.
Proof. vm_compute. reflexivity. Defined.

Lemma review_ab :
  stepReview Sample.COMPLETE (steps Sample.workflow) Sample.result_ab
  = Normal {| nextStepIndex := 2; complete := true |}.
Proof. vm_compute. reflexivity. Defined.

Lemma stepReview_scan_witness :
  stepReview Sample.COMPLETE [Sample.step_a; Sample.step_b] Sample.result_a
  = Normal {| nextStepIndex := 1; complete := false |}
  ∧ stepReview Sample.COMPLETE [Sample.step_a; Sample.step_b] Sample.result_ab
    = Normal {| nextStepIndex := 2; complete := true |}.
Proof.
  split.
  - refine (proj1 (stepReview_scan Sample.COMPLETE [Sample.step_a; Sample.step_b]
                     Sample.result_a Sample.entries_a
                     (records_result_with _ _) _ entries_a_objects)
              1%nat Sample.step_b _ _ _).
    + intros Hempty. apply (f_equal (fun m => m !! "a")) in Hempty.
      vm_compute in Hempty. discriminate.
    + reflexivity.
    + left. vm_compute. reflexivity.
    + intros j earlier Hj Hlookup. destruct j as [| j]; [| lia].
      injection Hlookup as <-. exists Sample.completed.
      split; vm_compute; reflexivity.
  - refine (proj2 (stepReview_scan Sample.COMPLETE [Sample.step_a; Sample.step_b]
                     Sample.result_ab Sample.entries_ab
                     (records_result_with _ _) _ entries_ab_objects) _).
    + intros Hempty. apply (f_equal (fun m => m !! "a")) in Hempty.
      vm_compute in Hempty. discriminate.
    + intros step Hin. exists Sample.completed.
      apply list_elem_of_In in Hin. simpl in Hin.
      destruct Hin as [<- | [<- | []]]; split; vm_compute; reflexivity.
Defined.

Lemma checkStatus_complete_witness :
  checkStatus Sample.COMPLETE Sample.unassigned Sample.workflow Sample.result_ab
  = Normal COMPLETE_DISPLAY.
Proof.
  apply (checkStatus_complete Sample.COMPLETE Sample.unassigned Sample.workflow
           Sample.result_ab {| nextStepIndex := 2; complete := true |}).
  - exact review_ab.
  - reflexivity.
  - simpl. lia.
Defined.

Lemma checkStatus_unassigned_witness :
  checkStatus Sample.COMPLETE Sample.unassigned Sample.workflow Sample.result_a
  = Normal UNASSIGNED_DISPLAY.
Proof.
  apply (checkStatus_unassigned Sample.COMPLETE Sample.unassigned Sample.workflow
           Sample.result_a {| nextStepIndex := 1; complete := false |}).
  - reflexivity.
  - exact review_a.
  - intros [_ Hcomplete]. discriminate Hcomplete.
Defined.

Lemma checkStatus_pending_witness :
  checkStatus Sample.COMPLETE Sample.assigned Sample.workflow Sample.result_a
  = Normal PENDING_DISPLAY.
Proof.
  apply (checkStatus_pending Sample.COMPLETE Sample.assigned Sample.workflow
           Sample.result_a {| nextStepIndex := 1; complete := false |}).
  - reflexivity.
  - exact review_a.
  - intros [_ Hcomplete]. discriminate Hcomplete.
  - simpl. lia.
Defined.

Lemma getResultByWorkorderId_first_match_witness :
  getResultByWorkorderId Sample.mediator "wo1" []
  = (Resolved Sample.result_a, [listResultsRequest])
  ∧ getResultByWorkorderId Sample.mediator "wo9" []
    = (Resolved VNull, [listResultsRequest])
  ∧ getResultByWorkorderId Sample.mediator_down "wo1" []
    = (Rejected (Reason (VStr "bus down")), [listResultsRequest]).
Proof.
  assert (Forall is_object Sample.results) as Hobjects
    by (repeat constructor; apply is_object_VObj).
  split; [| split].
  - refine (proj1 (proj1 (getResultByWorkorderId_first_match Sample.mediator "wo1" [])
                     Sample.results eq_refl Hobjects)
              1%nat Sample.result_a eq_refl _ _).
    + vm_compute. reflexivity.
    + intros j earlier Hj Hlookup. destruct j as [| j]; [| lia].
      injection Hlookup as <-. intros Hmatch. vm_compute in Hmatch. discriminate.
  - refine (proj2 (proj1 (getResultByWorkorderId_first_match Sample.mediator "wo9" [])
                     Sample.results eq_refl Hobjects) _).
    intros result Hin Hmatch. apply list_elem_of_In in Hin. simpl in Hin.
    destruct Hin as [<- | [<- | [<- | []]]]; vm_compute in Hmatch; discriminate.
  - exact (proj2 (getResultByWorkorderId_first_match Sample.mediator_down "wo1" [])
             _ eq_refl).
Defined.

Lemma getResultByWorkorderId_no_list_witness :
  getResultByWorkorderId Sample.mediator_no_list "wo1" []
  = (Resolved VNull, [listResultsRequest]).
Proof.
  apply (getResultByWorkorderId_no_list Sample.mediator_no_list "wo1" [] VNull).
  - reflexivity.
  - right. reflexivity.
Defined.

Lemma getWorkorderSummary_triple_witness :
  getWorkorderSummary Sample.mediator true "wo1" []
  = (Resolved (VArr [Sample.workorder; Sample.workflow_record; Sample.result_a]),
     [readWorkorderRequest "wo1"; readWorkflowRequest (VStr "wf1"); listResultsRequest])
  ∧ getWorkorderSummary Sample.mediator_down true "wo1" []
    = (Rejected (Reason (VStr "bus down")), [readWorkorderRequest "wo1"]).
Proof.
  split.
  - apply (proj1 (getWorkorderSummary_triple Sample.mediator true "wo1" [])
             Sample.workorder (VStr "wf1") Sample.workflow_record Sample.result_a).
    + reflexivity.
    + vm_compute. reflexivity.
    + reflexivity.
    + vm_compute. reflexivity.
  - exact (proj2 (getWorkorderSummary_triple Sample.mediator_down true "wo1" [])
             _ eq_refl).
Defined.

(** ** The service at work *)

Example stepReview_no_result :
  stepReview Sample.COMPLETE [] VNull = Normal {| nextStepIndex := 0; complete := false |}.
Proof. reflexivity. Qed.

Example stepReview_first_step_done :
  stepReview Sample.COMPLETE [Sample.step_a; Sample.step_b]
    (VObj {[ "stepResults" := VObj {[ "a" := Sample.completed ]} ]})
  = Normal {| nextStepIndex := 1; complete := false |}.
Proof. vm_compute. reflexivity. Qed.

Example stepReview_both_steps_done :
  stepReview Sample.COMPLETE [Sample.step_a; Sample.step_b]
    (VObj {[ "stepResults" := VObj {[ "a" := Sample.completed; "b" := Sample.completed ]} ]})
  = Normal {| nextStepIndex := 2; complete := true |}.
Proof. vm_compute. reflexivity. Qed.

Example stepReview_step_pending :
  stepReview Sample.COMPLETE [Sample.step_a; Sample.step_b]
    (VObj {[ "stepResults" := VObj {[ "a" := Sample.pending; "b" := Sample.completed ]} ]})
  = Normal {| nextStepIndex := 0; complete := false |}.
Proof. vm_compute. reflexivity. Qed.

(** A new result, as [createNewResult] builds it, against a workflow that
    has steps and against one that has none. *)
Example stepReview_new_result :
  stepReview Sample.COMPLETE [Sample.step_a; Sample.step_b]
    (VObj {[ "stepResults" := VObj ∅ ]})
  = Normal {| nextStepIndex := 0; complete := false |}
  ∧ checkStatus Sample.COMPLETE Sample.assigned {| steps := [] |}
      (VObj {[ "stepResults" := VObj ∅ ]})
    = Normal COMPLETE_DISPLAY.
Proof. split; vm_compute; reflexivity. Qed.

(** A [null] among the listed results, before any match, makes the
    callback throw: the promise rejects. *)
Example getResultByWorkorderId_null_element :
  fst (getResultByWorkorderId
         (fun _ _ => Resolved (VArr [VNull; Sample.result_a])) "wo1" [])
  = Rejected TypeError.
Proof. vm_compute. reflexivity. Qed.

(** A workorder that is [null] makes [getWorkorderSummary] reject after its
    first request. *)
Example getWorkorderSummary_null_workorder :
  getWorkorderSummary (fun _ _ => Resolved VNull) true "wo1" []
  = (Rejected TypeError, [readWorkorderRequest "wo1"]).
Proof. vm_compute. reflexivity. Qed.

(** ** More on [_.findIndex] *)

Section FindIndexMore.
Context {A : Type} (predicate : A → completion bool).

(** What [_.findIndex] has passed over, the predicate has answered
    [false] for. *)
Lemma findIndex_from_passed array index n :
  0 ≤ index →
  findIndex_from predicate array index = Normal n →
  ∀ j x, array !! j = Some x → n = -1 ∨ index + Z.of_nat j < n →
         predicate x = Normal false.
Proof.
  revert index. induction array as [| y rest IH]; intros index Hindex Hfind j x Hj Hn.
  - discriminate Hj.
  - simpl in Hfind. destruct (predicate y) as [[] |] eqn:Hy; simpl in Hfind;
      try discriminate Hfind.
    + injection Hfind as <-. lia.
    + destruct j as [| j]; simpl in Hj.
      * injection Hj as <-. exact Hy.
      * apply (IH (index + 1) ltac:(lia) Hfind j x Hj). lia.
Qed.

(** What follows the element found is not looked at. *)
Lemma findIndex_from_app array more index n :
  findIndex_from predicate array index = Normal n →
  n ≠ -1 →
  findIndex_from predicate (array ++ more) index = Normal n.
Proof.
  revert index. induction array as [| y rest IH]; intros index Hfind Hn; simpl in *.
  - injection Hfind as <-. contradiction.
  - destruct (predicate y) as [[] |]; simpl in *; try discriminate Hfind.
    + exact Hfind.
    + apply IH; assumption.
Qed.

End FindIndexMore.

(** ** More on the status derivation *)

Section StatusEngineMore.
Variable COMPLETE : string.

Lemma incomplete_false_done result stepResults step :
  get result "stepResults" = Normal stepResults →
  incomplete COMPLETE stepResults step = Normal false →
  step_done COMPLETE result step.
Proof.
  intros Hget Hinc. unfold incomplete in Hinc.
  destruct (get stepResults (code step)) as [entry |] eqn:Hentry; simpl in Hinc;
    [| discriminate Hinc].
  destruct (truthy entry) eqn:Ht; simpl in Hinc; [| discriminate Hinc].
  destruct (get entry "status") as [status |] eqn:Hstatus; simpl in Hinc;
    [| discriminate Hinc].
  injection Hinc as Heq. apply negb_false_iff, strict_eq_str in Heq. subst status.
  exists stepResults, entry. repeat split; assumption.
Qed.

(** X1. Every step before the [nextStepIndex] that [stepReview] returns has
    a [COMPLETE] entry in the step results of the result; when it returns
    [complete = true], every step has. *)
Theorem stepReview_passed_steps_done steps result review :
  stepReview COMPLETE steps result = Normal review →
  (∀ j step, Z.of_nat j < nextStepIndex review → steps !! j = Some step →
             step_done COMPLETE result step)
  ∧ (complete review = true → ∀ step, step ∈ steps → step_done COMPLETE result step).
Proof.
  intros Hreview.
  assert (∀ j step, Z.of_nat j < nextStepIndex review → steps !! j = Some step →
                    step_done COMPLETE result step) as Hpassed.
  { destruct (stepReview_cases COMPLETE steps result)
      as [Hnot | (stepResults & _ & Hget & Hs & Hscan)]; rewrite Hreview in *.
    - injection Hnot as ->. simpl. intros; lia.
    - destruct (findIndex steps (incomplete COMPLETE stepResults)) as [index |] eqn:Hindex;
        simpl in Hscan; [| discriminate Hscan].
      injection Hscan as ->. intros j step Hlt Hj.
      apply (incomplete_false_done _ stepResults _ Hget).
      apply (findIndex_from_passed _ steps 0 index ltac:(lia) Hindex j step Hj).
      unfold review_of in Hlt. destruct (Z.eqb_spec index (-1)); simpl in Hlt;
        [left; assumption | right; lia]. }
  split; [exact Hpassed |].
  intros Hcomplete step Hin.
  destruct (stepReview_returns COMPLETE steps result) as (review' & Hreview' & _ & Hlen).
  rewrite Hreview in Hreview'. injection Hreview' as <-.
  apply list_elem_of_lookup in Hin as [j Hj].
  apply (Hpassed j step); [| exact Hj].
  rewrite (Hlen Hcomplete). apply lookup_lt_Some in Hj. lia.
Qed.

(** Whether [stepReview] scans does not depend on the steps. *)
Lemma stepReview_guard result :
  (∀ steps, stepReview COMPLETE steps result = Normal not_started)
  ∨ ∃ stepResults,
      get result "stepResults" = Normal stepResults
      ∧ truthy stepResults = true
      ∧ ∀ steps, stepReview COMPLETE steps result
                 = (index ← findIndex steps (incomplete COMPLETE stepResults);
                    Normal (review_of steps index)).
Proof.
  unfold stepReview, js_and.
  destruct (truthy result) eqn:Hr;
    [| left; intros steps; simpl; rewrite Hr; simpl; rewrite Hr; reflexivity].
  destruct (get_truthy result "stepResults" Hr) as [stepResults Hget].
  rewrite Hget. simpl.
  destruct (truthy stepResults) eqn:Hs;
    [| left; intros steps; simpl; rewrite Hs; reflexivity].
  destruct (get_truthy stepResults "length" Hs) as [len ->]. simpl.
  destruct (strict_eq len (VNum 0)); simpl; [left; reflexivity |].
  right. exists stepResults. repeat split; try assumption. intros steps.
  destruct (findIndex steps (incomplete COMPLETE stepResults)) as [index |]; simpl;
    [| reflexivity].
  unfold review_of. destruct (index =? -1); reflexivity.
Qed.

(** X2. Steps added after the steps of a review that is not complete do
    not change it: [stepReview] stops at the first incomplete step. *)
Theorem stepReview_more_steps steps more result review :
  stepReview COMPLETE steps result = Normal review →
  complete review = false →
  stepReview COMPLETE (steps ++ more) result = Normal review.
Proof.
  intros Hreview Hcomplete.
  destruct (stepReview_guard result) as [Hnot | (stepResults & _ & _ & Hscan)].
  - rewrite Hnot in *. exact Hreview.
  - rewrite Hscan in *. unfold findIndex in *.
    destruct (findIndex_from (incomplete COMPLETE stepResults) steps 0)
      as [index |] eqn:Hindex; simpl in Hreview; [| discriminate Hreview].
    injection Hreview as <-.
    unfold review_of in Hcomplete |- *.
    destruct (Z.eqb_spec index (-1)); simpl in Hcomplete; [discriminate Hcomplete |].
    rewrite (findIndex_from_app _ _ more _ _ Hindex n). simpl.
    destruct (Z.eqb_spec index (-1)); [contradiction | reflexivity].
Qed.

Lemma stepReview_unreviewed steps result :
  truthy result = false
  ∨ (∃ stepResults, get result "stepResults" = Normal stepResults
                    ∧ (truthy stepResults = false ∨ stepResults = VArr [])) →
  stepReview COMPLETE steps result = Normal not_started.
Proof.
  unfold stepReview, js_and.
  intros [Hr | (stepResults & Hget & Hs)].
  - rewrite Hr. simpl. rewrite Hr. simpl. rewrite Hr. reflexivity.
  - destruct (truthy result) eqn:Hr;
      [| simpl; rewrite Hr; simpl; rewrite Hr; reflexivity].
    rewrite Hget. simpl. destruct Hs as [Hs | ->].
    + rewrite Hs. simpl. rewrite Hs. reflexivity.
    + reflexivity.
Qed.

(** X3. [stepReview] answers "not started", whatever the steps, for a
    result that is falsy, for one whose [stepResults] is falsy, and for one
    whose [stepResults] is an empty array. *)
Theorem stepReview_not_started steps result :
  truthy result = false
  ∨ (∃ stepResults, get result "stepResults" = Normal stepResults
                    ∧ (truthy stepResults = false ∨ stepResults = VArr [])) →
  stepReview COMPLETE steps result = Normal {| nextStepIndex := 0; complete := false |}.
Proof. apply stepReview_unreviewed. Qed.

(** X4. What [checkStatus] answers is decided by the [complete] of the
    review and the truthiness of the assignee: [COMPLETE_DISPLAY] exactly
    when the review is complete, and otherwise [PENDING_DISPLAY] with an
    assignee and [UNASSIGNED_DISPLAY] without.  The comparison of the index
    with [steps.length - 1] never decides. *)
Theorem checkStatus_decided workorder workflow result :
  ∃ review,
    stepReview COMPLETE (steps workflow) result = Normal review
    ∧ checkStatus COMPLETE workorder workflow result
      = Normal (if complete review then COMPLETE_DISPLAY
                else if truthy (assignee workorder) then PENDING_DISPLAY
                else UNASSIGNED_DISPLAY).
Proof.
  destruct (stepReview_returns COMPLETE (steps workflow) result)
    as (review & Hreview & Hrange & Hlen).
  exists review. split; [exact Hreview |].
  unfold checkStatus. rewrite Hreview. simpl.
  destruct (complete review).
  - rewrite (Hlen eq_refl), andb_true_r.
    destruct (Z.geb_spec (Z.of_nat (length (steps workflow)))
                (Z.of_nat (length (steps workflow)) - 1)); [reflexivity | lia].
  - rewrite andb_false_r.
    destruct (truthy (assignee workorder)); simpl; [| reflexivity].
    destruct (Z.ltb_spec (nextStepIndex review) 0); [lia | reflexivity].
Qed.

(** X5. A workorder that has no result yet ([null] or [undefined], or a
    result without step results) is never shown as complete, whatever its
    workflow, even one without steps: it is pending when assigned and
    unassigned otherwise. *)
Theorem checkStatus_no_result workorder workflow result :
  truthy result = false
  ∨ (∃ stepResults, get result "stepResults" = Normal stepResults
                    ∧ truthy stepResults = false) →
  checkStatus COMPLETE workorder workflow result
  = Normal (if truthy (assignee workorder) then PENDING_DISPLAY else UNASSIGNED_DISPLAY).
Proof.
  intros Hno.
  assert (stepReview COMPLETE (steps workflow) result = Normal not_started) as Hreview.
  { apply stepReview_unreviewed.
    destruct Hno as [Hr | (stepResults & Hget & Hs)]; [left; exact Hr |].
    right. exists stepResults. split; [exact Hget | left; exact Hs]. }
  unfold checkStatus. rewrite Hreview. simpl. rewrite andb_false_r.
  destruct (truthy (assignee workorder)); reflexivity.
Qed.

End StatusEngineMore.

(** ** More on [_.find] *)

Section FindMore.
Variable predicate : value → completion bool.

Lemma find_in_found array v :
  find_in predicate array = Normal v →
  v = VUndefined ∨ (v ∈ array ∧ predicate v = Normal true).
Proof.
  induction array as [| x rest IH]; simpl; intros Hfind.
  - injection Hfind as <-. left. reflexivity.
  - destruct (predicate x) as [[] |] eqn:Hx; simpl in Hfind; try discriminate Hfind.
    + injection Hfind as <-. right. split; [apply list_elem_of_here | exact Hx].
    + destruct (IH Hfind) as [-> | [Hin Hp]]; [left; reflexivity |].
      right. split; [apply list_elem_of_further, Hin | exact Hp].
Qed.

Lemma find_in_thrown array e :
  find_in predicate array = Throw e →
  ∃ x, x ∈ array ∧ predicate x = Throw e.
Proof.
  induction array as [| x rest IH]; simpl; intros Hfind; [discriminate Hfind |].
  destruct (predicate x) as [[] |] eqn:Hx; simpl in Hfind; try discriminate Hfind.
  - destruct (IH Hfind) as (y & Hin & Hy).
    exists y. split; [apply list_elem_of_further, Hin | exact Hy].
  - injection Hfind as <-. exists x. split; [apply list_elem_of_here | exact Hx].
Qed.

Lemma find_in_throws before x after e :
  Forall (fun y => predicate y = Normal false) before →
  predicate x = Throw e →
  find_in predicate (before ++ x :: after) = Throw e.
Proof.
  intros Hbefore Hx.
  induction Hbefore as [| y rest Hy _ IH]; simpl.
  - rewrite Hx. reflexivity.
  - rewrite Hy. simpl. exact IH.
Qed.

End FindMore.

(** ** More on the composite operations *)

Section FacadeMore.
Variable mediator : list request → request → promise value.
Variable workflow_rejects_first : bool.

Lemma matches_true workorderId result :
  (id ← get result "workorderId"; Normal (strict_eq id (VStr workorderId)))
  = Normal true →
  for_workorder workorderId result ∧ truthy result = true.
Proof.
  unfold for_workorder.
  destruct result; simpl; intros Hmatch; try discriminate Hmatch.
  split; [| reflexivity]. f_equal. apply strict_eq_str.
  injection Hmatch as Hmatch. exact Hmatch.
Qed.

Lemma matches_thrown workorderId result e :
  (id ← get result "workorderId"; Normal (strict_eq id (VStr workorderId)))
  = Throw e →
  e = TypeError ∧ absent result.
Proof.
  destruct result; simpl; intros Hmatch; try discriminate Hmatch.
  - injection Hmatch as <-. split; [reflexivity | left; reflexivity].
  - injection Hmatch as <-. split; [reflexivity | right; reflexivity].
Qed.

(** X6. Over any array the bus lists, [getResultByWorkorderId] resolves to
    [null] or to an element of the array whose [workorderId] is the given
    one, never to a result of another workorder; it rejects only with a
    [TypeError], and only when the array holds a [null] or [undefined]. *)
Theorem getResultByWorkorderId_sound workorderId log results :
  mediator log listResultsRequest = Resolved (VArr results) →
  match fst (getResultByWorkorderId mediator workorderId log) with
  | Resolved found =>
      found = VNull ∨ (found ∈ results ∧ for_workorder workorderId found)
  | Rejected e => e = TypeError ∧ ∃ x, x ∈ results ∧ absent x
  end.
Proof.
  intros Hlist. rewrite getResultByWorkorderId_unfold, Hlist.
  unfold matching_result, js_or. simpl.
  destruct (find_in _ results) as [found | e] eqn:Hfind; simpl.
  - apply find_in_found in Hfind as [-> | [Hin Hmatch]]; [left; reflexivity |].
    apply matches_true in Hmatch as [Hmatch Ht]. rewrite Ht. simpl.
    right. split; assumption.
  - apply find_in_thrown in Hfind as (x & Hin & Hx).
    apply matches_thrown in Hx as [-> Habsent]. split; [reflexivity |].
    exists x. split; assumption.
Qed.

(** X7. A [null] or [undefined] among the listed results, with no match
    before it, makes [getResultByWorkorderId] reject with a [TypeError],
    even when a matching result follows. *)
Theorem getResultByWorkorderId_absent_element workorderId log before x after :
  mediator log listResultsRequest = Resolved (VArr (before ++ x :: after)) →
  Forall (fun earlier => is_object earlier ∧ ¬ for_workorder workorderId earlier) before →
  absent x →
  getResultByWorkorderId mediator workorderId log
  = (Rejected TypeError, log ++ [listResultsRequest]).
Proof.
  intros Hlist Hbefore Habsent. rewrite getResultByWorkorderId_unfold, Hlist.
  unfold matching_result, js_or. simpl.
  rewrite (find_in_throws _ before x after TypeError); [reflexivity | |].
  - eapply Forall_impl; [exact Hbefore |]. intros earlier [Hobject Hno].
    apply matches_no; assumption.
  - destruct Habsent as [-> | ->]; reflexivity.
Qed.

(** What [getWorkorderSummary] does once the workorder is there. *)
Lemma getWorkorderSummary_fetched workorderId log workorder workflowId :
  mediator log (readWorkorderRequest workorderId) = Resolved workorder →
  get workorder "workflowId" = Normal workflowId →
  getWorkorderSummary mediator workflow_rejects_first workorderId log
  = (match q_all workflow_rejects_first
             (mediator (log ++ [readWorkorderRequest workorderId])
                (readWorkflowRequest workflowId))
             (fst (getResultByWorkorderId mediator workorderId
                     (log ++ [readWorkorderRequest workorderId;
                              readWorkflowRequest workflowId]))) with
     | Resolved workorderResult =>
         settle (workflow ← get workorderResult "0";
                 result ← get workorderResult "1";
                 Normal (VArr [workorder; workflow; result]))
     | Rejected e => Rejected e
     end,
     log ++ [readWorkorderRequest workorderId;
             readWorkflowRequest workflowId;
             listResultsRequest]).
Proof.
  intros Hworkorder Hid.
  unfold getWorkorderSummary, readWorkorder, read, execute, mbind, bus_op_bind.
  fold (readWorkorderRequest workorderId). rewrite Hworkorder. simpl.
  rewrite Hid. fold (readWorkflowRequest workflowId).
  rewrite <- (assoc_L (++)). simpl.
  rewrite !getResultByWorkorderId_unfold. simpl.
  rewrite <- (assoc_L (++)). simpl.
  destruct (q_all _ _ _); reflexivity.
Qed.

Lemma getWorkorderSummary_unfetched workorderId log :
  (∀ workorder, mediator log (readWorkorderRequest workorderId) = Resolved workorder →
                absent workorder →
                getWorkorderSummary mediator workflow_rejects_first workorderId log
                = (Rejected TypeError, log ++ [readWorkorderRequest workorderId]))
  ∧ (∀ e, mediator log (readWorkorderRequest workorderId) = Rejected e →
          getWorkorderSummary mediator workflow_rejects_first workorderId log
          = (Rejected e, log ++ [readWorkorderRequest workorderId])).
Proof.
  split.
  - intros workorder Hworkorder Habsent.
    unfold getWorkorderSummary, readWorkorder, execute, mbind, bus_op_bind.
    fold (readWorkorderRequest workorderId). rewrite Hworkorder.
    destruct Habsent as [-> | ->]; reflexivity.
  - intros e Hworkorder.
    unfold getWorkorderSummary, readWorkorder, execute, mbind, bus_op_bind.
    fold (readWorkorderRequest workorderId). rewrite Hworkorder. reflexivity.
Qed.

Lemma get_absent_or v k : absent v ∨ ∃ w, get v k = Normal w.
Proof.
  destruct v; simpl; eauto; try (left; unfold absent; eauto; fail);
    right; destruct (String.eqb k "length"); eauto; destruct (array_index k); eauto.
Qed.

(** X8. Once the workorder is fetched, a rejection of the workflow request
    or of the search for the result makes [getWorkorderSummary] reject with
    the reason of one of them; both requests have been made by then. *)
Theorem getWorkorderSummary_dependent_failure workorderId log workorder workflowId :
  mediator log (readWorkorderRequest workorderId) = Resolved workorder →
  get workorder "workflowId" = Normal workflowId →
  let workflowPromise :=
    mediator (log ++ [readWorkorderRequest workorderId]) (readWorkflowRequest workflowId) in
  let resultPromise :=
    fst (getResultByWorkorderId mediator workorderId
           (log ++ [readWorkorderRequest workorderId; readWorkflowRequest workflowId])) in
  (∃ e, workflowPromise = Rejected e) ∨ (∃ e, resultPromise = Rejected e) →
  ∃ e, getWorkorderSummary mediator workflow_rejects_first workorderId log
       = (Rejected e, log ++ [readWorkorderRequest workorderId;
                              readWorkflowRequest workflowId;
                              listResultsRequest])
       ∧ (workflowPromise = Rejected e ∨ resultPromise = Rejected e).
Proof.
  intros Hworkorder Hid workflowPromise resultPromise Hfail.
  rewrite (getWorkorderSummary_fetched _ _ _ _ Hworkorder Hid).
  fold workflowPromise resultPromise.
  destruct workflowPromise as [workflow | e1], resultPromise as [result | e2]; simpl.
  - destruct Hfail as [[e He] | [e He]]; discriminate He.
  - exists e2. split; [reflexivity | right; reflexivity].
  - exists e1. split; [reflexivity | left; reflexivity].
  - destruct workflow_rejects_first;
      [exists e1 | exists e2]; (split; [reflexivity | auto]).
Qed.

(** X9. When the bus resolves the workorder request to [null] or
    [undefined], [getWorkorderSummary] rejects with a [TypeError] and makes
    no other request. *)
Theorem getWorkorderSummary_absent_workorder workorderId log workorder :
  mediator log (readWorkorderRequest workorderId) = Resolved workorder →
  absent workorder →
  getWorkorderSummary mediator workflow_rejects_first workorderId log
  = (Rejected TypeError, log ++ [readWorkorderRequest workorderId]).
Proof. apply getWorkorderSummary_unfetched. Qed.

(** X10. Whatever the bus answers, [getWorkorderSummary] makes either the
    request for the workorder alone, or that request, a request for a
    workflow and the request for the list of results, in this order; all
    of them read, none creates, updates or removes. *)
Theorem getWorkorderSummary_requests workorderId log :
  ∃ made,
    snd (getWorkorderSummary mediator workflow_rejects_first workorderId log)
    = log ++ made
    ∧ (made = [readWorkorderRequest workorderId]
       ∨ ∃ workflowId, made = [readWorkorderRequest workorderId;
                               readWorkflowRequest workflowId;
                               listResultsRequest])
    ∧ Forall reads made.
Proof.
  assert (∀ made, Forall (fun req => topic req = LIST ∨ topic req = READ) made →
                  Forall reads made) as Hreads by (intros made H; exact H).
  destruct (mediator log (readWorkorderRequest workorderId)) as [workorder | e] eqn:Hw.
  - destruct (get_absent_or workorder "workflowId") as [Habsent | [workflowId Hid]].
    + rewrite (proj1 (getWorkorderSummary_unfetched workorderId log) _ Hw Habsent).
      eexists. split; [reflexivity |]. split; [left; reflexivity |].
      apply Hreads, Forall_cons_2; [right; reflexivity | apply Forall_nil_2].
    + rewrite (getWorkorderSummary_fetched _ _ _ _ Hw Hid).
      eexists. split; [reflexivity |]. split; [right; eexists; reflexivity |].
      apply Hreads. repeat (apply Forall_cons_2; [auto |]). apply Forall_nil_2.
  - rewrite (proj2 (getWorkorderSummary_unfetched workorderId log) _ Hw).
    eexists. split; [reflexivity |]. split; [left; reflexivity |].
    apply Hreads, Forall_cons_2; [right; reflexivity | apply Forall_nil_2].
Qed.

(** X11. [getWorkorderSummary] resolves only when its three requests
    succeeded, and then to the array of the workorder the bus answered
    with, the workflow it answered with for the [workflowId] of that
    workorder, and what [getResultByWorkorderId] resolved to. *)
Theorem getWorkorderSummary_sound workorderId log summary :
  fst (getWorkorderSummary mediator workflow_rejects_first workorderId log)
  = Resolved summary →
  ∃ workorder workflowId workflow result,
    summary = VArr [workorder; workflow; result]
    ∧ mediator log (readWorkorderRequest workorderId) = Resolved workorder
    ∧ get workorder "workflowId" = Normal workflowId
    ∧ mediator (log ++ [readWorkorderRequest workorderId])
        (readWorkflowRequest workflowId) = Resolved workflow
    ∧ fst (getResultByWorkorderId mediator workorderId
             (log ++ [readWorkorderRequest workorderId;
                      readWorkflowRequest workflowId]))
      = Resolved result.
Proof.
  intros Hsummary.
  destruct (mediator log (readWorkorderRequest workorderId)) as [workorder | e] eqn:Hw.
  - destruct (get_absent_or workorder "workflowId") as [Habsent | [workflowId Hid]].
    + rewrite (proj1 (getWorkorderSummary_unfetched workorderId log) _ Hw Habsent)
        in Hsummary. discriminate Hsummary.
    + rewrite (getWorkorderSummary_fetched _ _ _ _ Hw Hid) in Hsummary.
      simpl in Hsummary.
      destruct (mediator (log ++ [readWorkorderRequest workorderId])
                  (readWorkflowRequest workflowId)) as [workflow | e1] eqn:Hwf;
        destruct (fst (getResultByWorkorderId mediator workorderId
                         (log ++ [readWorkorderRequest workorderId;
                                  readWorkflowRequest workflowId])))
          as [result | e2] eqn:Hres;
        simpl in Hsummary; try discriminate Hsummary.
      injection Hsummary as <-.
      exists workorder, workflowId, workflow, result. repeat split; assumption.
  - rewrite (proj2 (getWorkorderSummary_unfetched workorderId log) _ Hw) in Hsummary.
    discriminate Hsummary.
Qed.

(** X12. For a workorder none of the listed results belongs to, the
    summary still resolves, with [null] in the place of the result. *)
Theorem getWorkorderSummary_without_result workorderId log
    workorder workflowId workflow results :
  mediator log (readWorkorderRequest workorderId) = Resolved workorder →
  get workorder "workflowId" = Normal workflowId →
  mediator (log ++ [readWorkorderRequest workorderId])
    (readWorkflowRequest workflowId) = Resolved workflow →
  mediator (log ++ [readWorkorderRequest workorderId; readWorkflowRequest workflowId])
    listResultsRequest = Resolved (VArr results) →
  Forall (fun result => is_object result ∧ ¬ for_workorder workorderId result) results →
  fst (getWorkorderSummary mediator workflow_rejects_first workorderId log)
  = Resolved (VArr [workorder; workflow; VNull]).
Proof.
  intros Hworkorder Hid Hworkflow Hlist Hnone.
  rewrite (getWorkorderSummary_fetched _ _ _ _ Hworkorder Hid). simpl.
  rewrite Hworkflow, getResultByWorkorderId_unfold, Hlist. simpl.
  unfold matching_result, js_or. simpl.
  rewrite find_in_none; [reflexivity |].
  eapply Forall_impl; [exact Hnone |]. intros result [Hobject Hno].
  apply matches_no; assumption.
Qed.

End FacadeMore.

(** ** Creating a result, and listing workflows *)

Section OperationsFacts.
Variable mediator : list request → request → promise value.
Variable generate : list request → string.
Variable display : Status → value.

Lemma newResult_records workorderId :
  records (newResult display workorderId) ∅.
Proof. eexists. split; reflexivity. Qed.

(** X13. [createNewResult] makes one request, to create on the results
    topics, with a generated [topicUid]; the result it asks to create
    belongs to the given workorder and, against every workflow that has a
    step, is reviewed as not started. *)
Theorem createNewResult_not_started workorderId log :
  ∃ req created,
    createNewResult mediator generate display workorderId log
    = (mediator log req, log ++ [req])
    ∧ topics req = resultsTopics
    ∧ topic req = CREATE
    ∧ get (payload req) "topicUid" = Normal (VStr (generate log))
    ∧ get (payload req) "resultToCreate" = Normal created
    ∧ for_workorder workorderId created
    ∧ ∀ COMPLETE step steps,
        stepReview COMPLETE (step :: steps) created
        = Normal {| nextStepIndex := 0; complete := false |}.
Proof.
  eexists. exists (newResult display workorderId).
  split; [reflexivity |]. do 5 (split; [reflexivity |]).
  intros COMPLETE step steps.
  apply stepReview_empty_mapping_some_steps, newResult_records.
Qed.

End OperationsFacts.


(** ** The further theorems at the sample data *)

Lemma stepReview_passed_steps_done_witness :
  step_done Sample.COMPLETE Sample.result_a Sample.step_a
  ∧ ∀ step, step ∈ steps Sample.workflow →
            step_done Sample.COMPLETE Sample.result_ab step.
Proof.
  split.
  - apply (proj1 (stepReview_passed_steps_done Sample.COMPLETE (steps Sample.workflow)
                    Sample.result_a _ review_a) 0%nat Sample.step_a).
    + simpl. lia.
    + reflexivity.
  - apply (proj2 (stepReview_passed_steps_done Sample.COMPLETE (steps Sample.workflow)
                    Sample.result_ab _ review_ab)).
    reflexivity.
Defined.

Lemma stepReview_more_steps_witness :
  stepReview Sample.COMPLETE (steps Sample.workflow ++ [ {| code := "c" |} ]) Sample.result_a
  = Normal {| nextStepIndex := 1; complete := false |}.
Proof.
  apply (stepReview_more_steps Sample.COMPLETE (steps Sample.workflow)
           [ {| code := "c" |} ] Sample.result_a _ review_a).
  reflexivity.
Defined.

Lemma stepReview_not_started_witness :
  stepReview Sample.COMPLETE (steps Sample.workflow) VNull
  = Normal {| nextStepIndex := 0; complete := false |}
  ∧ stepReview Sample.COMPLETE (steps Sample.workflow)
      (VObj {[ "stepResults" := VArr [] ]})
    = Normal {| nextStepIndex := 0; complete := false |}.
Proof.
  split.
  - apply (stepReview_not_started Sample.COMPLETE (steps Sample.workflow) VNull).
    left. reflexivity.
  - apply (stepReview_not_started Sample.COMPLETE (steps Sample.workflow)
             (VObj {[ "stepResults" := VArr [] ]})).
    right. exists (VArr []). split; [vm_compute; reflexivity | right; reflexivity].
Defined.

Lemma checkStatus_no_result_witness :
  checkStatus Sample.COMPLETE Sample.assigned {| steps := [] |} VNull
  = Normal PENDING_DISPLAY
  ∧ checkStatus Sample.COMPLETE Sample.unassigned Sample.workflow
      (VObj {[ "workorderId" := VStr "wo1" ]})
    = Normal UNASSIGNED_DISPLAY.
Proof.
  split.
  - apply (checkStatus_no_result Sample.COMPLETE Sample.assigned {| steps := [] |} VNull).
    left. reflexivity.
  - apply (checkStatus_no_result Sample.COMPLETE Sample.unassigned Sample.workflow
             (VObj {[ "workorderId" := VStr "wo1" ]})).
    right. exists VUndefined. split; [vm_compute; reflexivity | reflexivity].
Defined.

Lemma getResultByWorkorderId_sound_witness :
  match fst (getResultByWorkorderId Sample.mediator "wo1" []) with
  | Resolved found => found = VNull ∨ (found ∈ Sample.results ∧ for_workorder "wo1" found)
  | Rejected e => e = TypeError ∧ ∃ x, x ∈ Sample.results ∧ absent x
  end.
Proof.
  exact (getResultByWorkorderId_sound Sample.mediator "wo1" [] Sample.results eq_refl).
Defined.

Lemma getResultByWorkorderId_absent_element_witness :
  getResultByWorkorderId Faulty.mediator_null_element "wo1" []
  = (Rejected TypeError, [listResultsRequest]).
Proof.
  apply (getResultByWorkorderId_absent_element Faulty.mediator_null_element "wo1" []
           [Sample.result_other] VNull [Sample.result_a]).
  - reflexivity.
  - apply Forall_cons_2; [| apply Forall_nil_2].
    split; [apply is_object_VObj |].
    intros Hmatch. vm_compute in Hmatch. discriminate Hmatch.
  - right. reflexivity.
Defined.

Lemma getWorkorderSummary_dependent_failure_witness :
  ∃ e, getWorkorderSummary Faulty.mediator_no_workflow true "wo1" []
       = (Rejected e, [readWorkorderRequest "wo1";
                       readWorkflowRequest (VStr "wf1");
                       listResultsRequest])
       ∧ (Faulty.mediator_no_workflow [readWorkorderRequest "wo1"]
            (readWorkflowRequest (VStr "wf1")) = Rejected e
          ∨ fst (getResultByWorkorderId Faulty.mediator_no_workflow "wo1"
                   [readWorkorderRequest "wo1"; readWorkflowRequest (VStr "wf1")])
            = Rejected e).
Proof.
  apply (getWorkorderSummary_dependent_failure Faulty.mediator_no_workflow true "wo1" []
           Sample.workorder (VStr "wf1")).
  - reflexivity.
  - vm_compute. reflexivity.
  - left. eexists. reflexivity.
Defined.

Lemma getWorkorderSummary_absent_workorder_witness :
  getWorkorderSummary Faulty.mediator_null_workorder true "wo1" []
  = (Rejected TypeError, [readWorkorderRequest "wo1"]).
Proof.
  apply (getWorkorderSummary_absent_workorder Faulty.mediator_null_workorder true "wo1" []
           VNull).
  - reflexivity.
  - right. reflexivity.
Defined.

Lemma getWorkorderSummary_sound_witness :
  ∃ workorder workflowId workflow result,
    VArr [Sample.workorder; Sample.workflow_record; Sample.result_a]
    = VArr [workorder; workflow; result]
    ∧ Sample.mediator [] (readWorkorderRequest "wo1") = Resolved workorder
    ∧ get workorder "workflowId" = Normal workflowId
    ∧ Sample.mediator [readWorkorderRequest "wo1"] (readWorkflowRequest workflowId)
      = Resolved workflow
    ∧ fst (getResultByWorkorderId Sample.mediator "wo1"
             [readWorkorderRequest "wo1"; readWorkflowRequest workflowId])
      = Resolved result.
Proof.
  apply (getWorkorderSummary_sound Sample.mediator true "wo1" []
           (VArr [Sample.workorder; Sample.workflow_record; Sample.result_a])).
  vm_compute. reflexivity.
Defined.

Lemma getWorkorderSummary_without_result_witness :
  fst (getWorkorderSummary Sample.mediator true "wo9" [])
  = Resolved (VArr [Sample.workorder; Sample.workflow_record; VNull]).
Proof.
  apply (getWorkorderSummary_without_result Sample.mediator true "wo9" []
           Sample.workorder (VStr "wf1") Sample.workflow_record Sample.results).
  - reflexivity.
  - vm_compute. reflexivity.
  - reflexivity.
  - reflexivity.
  - repeat (apply Forall_cons_2;
            [split; [apply is_object_VObj
                    | intros Hmatch; vm_compute in Hmatch; discriminate Hmatch] |]).
    apply Forall_nil_2.
Defined.

(** ** What the review depends on *)

Lemma findIndex_from_ext {A} (p q : A → completion bool) array index :
  (∀ x, x ∈ array → p x = q x) →
  findIndex_from p array index = findIndex_from q array index.
Proof.
  revert index. induction array as [| x rest IH]; intros index Hext; simpl;
    [reflexivity |].
  rewrite <- (Hext x (list_elem_of_here _ _)).
  destruct (p x) as [[] |]; simpl; try reflexivity.
  apply IH. intros y Hy. apply Hext, list_elem_of_further, Hy.
Qed.

Section ReviewDependence.
Variable COMPLETE : string.

(** When [stepReview] scans, it is complete exactly when no step is
    incomplete. *)
Lemma scan_complete_iff stepResults steps :
  truthy stepResults = true →
  ∃ index,
    findIndex steps (incomplete COMPLETE stepResults) = Normal index
    ∧ (complete (review_of steps index) = true
       ↔ Forall (fun step => incomplete COMPLETE stepResults step = Normal false) steps).
Proof.
  intros Hs.
  destruct (findIndex_from_range (incomplete COMPLETE stepResults) steps 0
              (fun step => incomplete_total COMPLETE stepResults step Hs))
    as (index & Hindex & Hrange).
  exists index. split; [exact Hindex |].
  unfold review_of. destruct (Z.eqb_spec index (-1)) as [-> | Hne]; simpl.
  - split; [intros _ | reflexivity].
    apply Forall_lookup. intros j step Hj.
    apply (findIndex_from_passed _ steps 0 (-1) ltac:(lia) Hindex j step Hj).
    left. reflexivity.
  - split; [discriminate |]. intros Hall.
    rewrite (findIndex_from_none _ steps 0 Hall) in Hindex. congruence.
Qed.

(** X15. Whether the review is complete does not depend on the order of
    the steps: reordering them can change [nextStepIndex] only. *)
Theorem stepReview_complete_reordered steps steps' result review review' :
  steps ≡ₚ steps' →
  stepReview COMPLETE steps result = Normal review →
  stepReview COMPLETE steps' result = Normal review' →
  complete review = complete review'.
Proof.
  intros Hperm Hreview Hreview'.
  destruct (stepReview_guard COMPLETE result) as [Hnot | (stepResults & _ & Hs & Hscan)].
  - rewrite Hnot in Hreview, Hreview'. congruence.
  - rewrite Hscan in Hreview, Hreview'.
    destruct (scan_complete_iff stepResults steps Hs) as (index & Hindex & Hiff).
    destruct (scan_complete_iff stepResults steps' Hs) as (index' & Hindex' & Hiff').
    rewrite Hindex in Hreview. rewrite Hindex' in Hreview'. simpl in *.
    injection Hreview as <-. injection Hreview' as <-.
    destruct (complete (review_of steps index)) eqn:Hc.
    + symmetry. apply Hiff'. rewrite <- Hperm. apply Hiff. reflexivity.
    + destruct (complete (review_of steps' index')) eqn:Hc'; [| reflexivity].
      apply Hiff. rewrite Hperm. apply Hiff'. reflexivity.
Qed.

(** X16. An entry of the step results under a key that is the code of
    none of the steps (and is not ["length"]) does not change the
    review. *)
Theorem stepReview_other_entry steps props entries key entry :
  props !! "stepResults" = Some (VObj entries) →
  key ≠ "length" →
  (∀ step, step ∈ steps → code step ≠ key) →
  stepReview COMPLETE steps
    (VObj (<["stepResults" := VObj (<[key := entry]> entries)]> props))
  = stepReview COMPLETE steps (VObj props).
Proof.
  intros Hprops Hlength Hcodes.
  unfold stepReview, js_and. simpl.
  rewrite lookup_insert_eq, Hprops. simpl.
  rewrite lookup_insert_ne by exact Hlength.
  destruct (strict_eq (default VUndefined (entries !! "length")) (VNum 0)); simpl;
    [reflexivity |].
  unfold findIndex.
  rewrite (findIndex_from_ext (incomplete COMPLETE (VObj (<[key := entry]> entries)))
             (incomplete COMPLETE (VObj entries))); [reflexivity |].
  intros step Hin. unfold incomplete. simpl.
  rewrite lookup_insert_ne; [reflexivity |].
  intros Heq. apply (Hcodes step Hin). symmetry. exact Heq.
Qed.

End ReviewDependence.

Lemma stepReview_complete_reordered_witness :
  complete {| nextStepIndex := 1; complete := false |}
  = complete {| nextStepIndex := 0; complete := false |}.
Proof.
  apply (stepReview_complete_reordered Sample.COMPLETE
           [Sample.step_a; Sample.step_b] [Sample.step_b; Sample.step_a]
           Sample.result_a).
  - apply perm_swap.
  - vm_compute. reflexivity.
  - vm_compute. reflexivity.
Defined.

Lemma stepReview_other_entry_witness :
  stepReview Sample.COMPLETE (steps Sample.workflow)
    (VObj (<["stepResults" := VObj (<["z" := Sample.pending]> Sample.entries_a)]>
             {[ "stepResults" := VObj Sample.entries_a ]}))
  = stepReview Sample.COMPLETE (steps Sample.workflow)
      (VObj {[ "stepResults" := VObj Sample.entries_a ]}).
Proof.
  apply (stepReview_other_entry Sample.COMPLETE (steps Sample.workflow)
           {[ "stepResults" := VObj Sample.entries_a ]} Sample.entries_a
           "z" Sample.pending).
  - reflexivity.
  - discriminate.
  - intros step Hin. apply list_elem_of_In in Hin. simpl in Hin.
    destruct Hin as [<- | [<- | []]]; discriminate.
Defined.
